(** * RowSetTree: the range-lookup index over the rowsets of a tablet

    A shallow embedding of [src/tablet/rowset_tree.cc].  The file has three
    operations: [RowSetTree::Reset] builds the index from a vector of
    rowsets, [RowSetTree::FindRowSetsWithKeyInRange] and
    [RowSetTree::FindRowSetsIntersectingInterval] query it.

    Vectors are lists ([push_back] appends at the end).  A [RowSet*] or a
    [shared_ptr<RowSet>] is a value of an abstract handle type, and the
    virtual call made on it is the method of a type class.  What the file
    takes from headers that are not among the sources ([util/slice.h],
    [util/status.h], [util/interval_tree.h], [tablet/rowset.h],
    [tablet/rowset_tree.h]) is modelled from the specification. *)

From Stdlib Require Import List Bool ZArith NArith Lia.
From Stdlib Require Import Strings.String Strings.Byte.
From Stdlib Require Import Sorting.Sorted Sorting.Permutation.
From Stdlib Require Import Relations.Relation_Definitions.
From Stdlib Require Import Classes.RelationClasses.
Import ListNotations.

Local Open Scope Z_scope.

(** ** Slices and their comparison *)

Module Slice.

(** A [Slice] is a run of raw bytes. *)
Definition t := list byte.

(** Modelled from the spec: [Slice::compare] of util/slice.h, which is not
    part of the sources.  It is the byte-lexicographic three-way comparison
    over the raw bytes (bytes compared as unsigned values, a proper prefix
    sorting first); the result is negative, zero or positive. *)
Fixpoint compare (a b : t) : Z :=
  match a, b with
  | [], [] => 0
  | [], _ :: _ => -1
  | _ :: _, [] => 1
  | x :: a', y :: b' =>
      match N.compare (Byte.to_N x) (Byte.to_N y) with
      | Lt => -1
      | Gt => 1
      | Eq => compare a' b'
      end
  end.

(** Modelled from the spec: [Slice::Comparator::operator()], the
    strict "less than" of the same order. *)
Definition Comparator (a b : t) : bool := compare a b <? 0.

(** Modelled from the spec: [Slice::ToString], an owned copy of the
    bytes. *)
Definition ToString (s : t) : t := s.

(** Order relations read off [compare]. *)
Definition le (a b : t) : Prop := compare a b <= 0.
Definition lt (a b : t) : Prop := compare a b < 0.

Definition of_string (s : string) : t := list_byte_of_string s.

End Slice.

Abbreviation Slice := Slice.t.

(** ** Status *)

(** Modelled from the spec: [Status] of util/status.h, which is not part of
    the sources.  A status is OK, NotSupported, or some other failure; a
    failure carries a message, and the other failures a code. *)
Inductive Status : Type :=
| OK
| NotSupported (msg : string)
| OtherError (code : N) (msg : string).

(** Modelled from the spec: [Status::ok]. *)
Definition ok (s : Status) : bool :=
  match s with OK => true | _ => false end.

(** Modelled from the spec: [Status::IsNotSupported]. *)
Definition IsNotSupported (s : Status) : bool :=
  match s with NotSupported _ => true | _ => false end.

(** ** The RowSet interface *)

(** Modelled from the spec: the abstract class [RowSet] of tablet/rowset.h,
    which is not part of the sources, as far as [Reset] consumes it.
    [GetBounds] returns its status together with the two out-parameters
    [min_key] and [max_key]; a rowset gives the same answer whenever it is
    asked during one build.  ([RowSet::ToString] is called only for the
    warning that [Reset] logs, which is left out.) *)
Class RowSetInterface (RowSet : Type) : Type := {
  GetBounds : RowSet -> Status * Slice * Slice
}.

(** ** The interval tree *)

(** Modelled from the spec: what [IntervalTree] asks of its [Traits]
    parameter, as the traits struct of rowset_tree.cc provides it: the two
    ends of an interval and a three-way comparison of points. *)
Class IntervalTraits (point_type interval_type : Type) : Type := {
  get_left : interval_type -> point_type;
  get_right : interval_type -> point_type;
  compare : point_type -> point_type -> Z
}.

Module IntervalTree.
Section IntervalTree.
Context {point_type interval_type : Type}.
Context `{Traits : IntervalTraits point_type interval_type}.

(** Modelled from the spec: [IntervalTree<Traits>] of
    util/interval_tree.h and util/interval_tree-inl.h, which are not part
    of the sources.  Only its contract is modelled: the tree is built from
    a sequence of intervals and answers the two queries below; balancing
    and augmentation are left out. *)
Record t : Type := Build { intervals : list interval_type }.

(** Modelled from the spec: a point lies in a stored interval, closed at
    both ends. *)
Definition contains_point (p : point_type) (i : interval_type) : bool :=
  (compare (get_left i) p <=? 0) && (compare p (get_right i) <=? 0).

(** Modelled from the spec: a stored interval overlaps the closed interval
    from [query_low] to [query_high]. *)
Definition intersects (query_low query_high : point_type)
           (i : interval_type) : bool :=
  (compare (get_left i) query_high <=? 0)
  && (compare query_low (get_right i) <=? 0).

(** Modelled from the spec: [FindContainingPoint], every stored interval
    that contains the point. *)
Definition FindContainingPoint (tree : t) (query : point_type)
  : list interval_type :=
  filter (contains_point query) (intervals tree).

(** Modelled from the spec: [FindIntersectingInterval], every stored
    interval that overlaps the closed query interval.  The source passes
    the query as a [RowSetWithBounds] whose [rowset] field is left unset
    and which the tree reads only through [get_left] and [get_right];
    here the two ends are passed as they are. *)
Definition FindIntersectingInterval (tree : t)
           (query_low query_high : point_type) : list interval_type :=
  filter (intersects query_low query_high) (intervals tree).

End IntervalTree.
End IntervalTree.

Arguments IntervalTree.t interval_type : clear implicits.

(** ** std::sort *)

Section StdSort.
Context {A : Type} (comp : A -> A -> bool).

(** [x] goes in front of the first element that is not smaller than it. *)
Fixpoint sort_insert (x : A) (l : list A) : list A :=
  match l with
  | [] => [x]
  | y :: l' => if comp y x then y :: sort_insert x l' else x :: l
  end.

(** [std::sort(first, last, comp)]: the standard library promises a
    rearrangement of the range that is ordered by [comp]; an insertion
    sort stands for it.  The order it gives to equal elements is not
    promised by [std::sort] and nothing below relies on it. *)
Definition std_sort (l : list A) : list A :=
  fold_right sort_insert [] l.

End StdSort.

(** ** The data of rowset_tree.cc *)

(** Modelled from the spec: [RowSetTree::EndpointType] of
    tablet/rowset_tree.h, which is not part of the sources. *)
Inductive EndpointType : Type := START | STOP.

Section Model.
Context {RowSet : Type} `{RowSetInterface RowSet}.

(** Modelled from the spec: [RowSetTree::RSEndpoint] of
    tablet/rowset_tree.h: a rowset, the kind of endpoint, its key, in the
    order in which [Reset] passes them to the constructor. *)
Record RSEndpoint : Type := Build_RSEndpoint {
  rowset_ : RowSet;
  endpoint_ : EndpointType;
  slice_ : Slice
}.

Definition RSEndpointBySliceCompare (a b : RSEndpoint) : bool :=
  Slice.Comparator (slice_ a) (slice_ b).

(** Entry for use in the interval tree. *)
Record RowSetWithBounds : Type := Build_RowSetWithBounds {
  rowset : RowSet;
  min_key : Slice;
  max_key : Slice
}.

(** Traits struct for IntervalTree. *)
#[export] Instance RowSetIntervalTraits
  : IntervalTraits Slice RowSetWithBounds := {
  get_left rs := min_key rs;
  get_right rs := max_key rs;
  compare a b := Slice.compare a b
}.

(** The members of a [RowSetTree] that rowset_tree.cc reads and writes
    (the class itself is declared in tablet/rowset_tree.h).  [tree_] is a
    scoped pointer, null until [Reset] installs a tree. *)
Record RowSetTree : Type := Build_RowSetTree {
  entries_ : list RowSetWithBounds;
  unbounded_rowsets_ : list RowSet;
  tree_ : option (IntervalTree.t RowSetWithBounds);
  key_endpoints_ : list RSEndpoint;
  all_rowsets_ : list RowSet;
  initted_ : bool
}.

(** [RowSetTree::RowSetTree()] *)
Definition RowSetTree_new : RowSetTree :=
  {| entries_ := []; unbounded_rowsets_ := []; tree_ := None;
     key_endpoints_ := []; all_rowsets_ := []; initted_ := false |}.

(** The three local vectors of [Reset]. *)
Record ResetLocals : Type := Build_ResetLocals {
  entries : list RowSetWithBounds;
  unbounded : list RowSet;
  endpoints : list RSEndpoint
}.

(** The locals as [Reset] declares them, all empty. *)
Definition no_locals : ResetLocals :=
  {| entries := []; unbounded := []; endpoints := [] |}.

(** The loop of [Reset] over the rowsets: [inl s] is the early
    [return s], [inr] the locals when the loop runs to its end. *)
Fixpoint Reset_loop (rowsets : list RowSet) (l : ResetLocals)
  : Status + ResetLocals :=
  match rowsets with
  | [] => inr l
  | rs :: rest =>
      let '(s, min_key, max_key) := GetBounds rs in
      if IsNotSupported s then
        Reset_loop rest
          {| entries := entries l;
             unbounded := unbounded l ++ [rs];
             endpoints := endpoints l |}
      else if negb (ok s) then
        inl s
      else
        Reset_loop rest
          {| entries := entries l ++
               [ {| rowset := rs;
                    min_key := Slice.ToString min_key;
                    max_key := Slice.ToString max_key |} ];
             unbounded := unbounded l;
             endpoints := endpoints l ++
               [ Build_RSEndpoint rs START min_key;
                 Build_RSEndpoint rs STOP max_key ] |}
  end.

(** What a call of [Reset] ends in: the fatal [CHECK] (the process is
    aborted, [t] is the object at that moment) or a return with a status
    and the object after the call. *)
Inductive ResetOutcome : Type :=
| CheckFailed (t : RowSetTree)
| Returned (s : Status) (t : RowSetTree).

(** [Status RowSetTree::Reset(const RowSetVector &rowsets)].  The warning
    logged before the early return is not modelled. *)
Definition Reset (rowsets : list RowSet) (t : RowSetTree) : ResetOutcome :=
  if initted_ t then CheckFailed t
  else
    match Reset_loop rowsets no_locals with
    | inl s => Returned s t
    | inr l =>
        let endpoints' := std_sort RSEndpointBySliceCompare (endpoints l) in
        Returned OK
          {| entries_ := entries l;
             unbounded_rowsets_ := unbounded l;
             tree_ := Some (IntervalTree.Build (entries l));
             key_endpoints_ := endpoints';
             all_rowsets_ := rowsets;
             initted_ := true |}
    end.

(** [void RowSetTree::FindRowSetsIntersectingInterval(lower_bound,
    upper_bound, rowsets)].  The result is the output vector after the
    call; [None] is the failed [DCHECK(initted_)] (with it compiled out,
    the dereference of the null [tree_]). *)
Definition FindRowSetsIntersectingInterval (t : RowSetTree)
           (lower_bound upper_bound : Slice) (rowsets : list RowSet)
  : option (list RowSet) :=
  if negb (initted_ t) then None
  else
    match tree_ t with
    | None => None
    | Some tree =>
        let rowsets := rowsets ++ unbounded_rowsets_ t in
        let from_tree :=
          IntervalTree.FindIntersectingInterval tree
            (Slice.ToString lower_bound) (Slice.ToString upper_bound) in
        Some (rowsets ++ map rowset from_tree)
    end.

(** [void RowSetTree::FindRowSetsWithKeyInRange(encoded_key, rowsets)] *)
Definition FindRowSetsWithKeyInRange (t : RowSetTree)
           (encoded_key : Slice) (rowsets : list RowSet)
  : option (list RowSet) :=
  if negb (initted_ t) then None
  else
    match tree_ t with
    | None => None
    | Some tree =>
        let rowsets := rowsets ++ unbounded_rowsets_ t in
        let from_tree := IntervalTree.FindContainingPoint tree encoded_key in
        Some (rowsets ++ map rowset from_tree)
    end.

(** *** Vocabulary for the statements about [Reset] *)

(** The status with which [GetBounds] answers for a rowset. *)
Definition bounds_status (rs : RowSet) : Status := fst (fst (GetBounds rs)).

(** The rowset takes the first branch of the loop: no bounds yet. *)
Definition is_unbounded (rs : RowSet) : bool :=
  IsNotSupported (bounds_status rs).

(** The rowset takes the second branch of the loop: the early return. *)
Definition bounds_failed (rs : RowSet) : bool :=
  negb (IsNotSupported (bounds_status rs)) && negb (ok (bounds_status rs)).

(** The rowset falls through to the end of the loop body. *)
Definition is_bounded (rs : RowSet) : bool :=
  negb (IsNotSupported (bounds_status rs)) && ok (bounds_status rs).

(** The entry the loop body saves for a rowset with bounds. *)
Definition bounded_entry (rs : RowSet) : RowSetWithBounds :=
  {| rowset := rs;
     min_key := Slice.ToString (snd (fst (GetBounds rs)));
     max_key := Slice.ToString (snd (GetBounds rs)) |}.

(** The two endpoints that belong to an entry. *)
Definition endpoints_of (e : RowSetWithBounds) : list RSEndpoint :=
  [ Build_RSEndpoint (rowset e) START (min_key e);
    Build_RSEndpoint (rowset e) STOP (max_key e) ].

(** The endpoint sequence is in ascending order of its keys, under the
    comparison of [RowSetIntervalTraits]. *)
Definition endpoints_sorted (l : list RSEndpoint) : Prop :=
  StronglySorted (fun a b => compare (slice_ a) (slice_ b) <= 0) l.

End Model.

Arguments RSEndpoint RowSet : clear implicits.
Arguments RowSetWithBounds RowSet : clear implicits.
Arguments RowSetTree RowSet : clear implicits.
Arguments ResetLocals RowSet : clear implicits.
Arguments ResetOutcome RowSet : clear implicits.

(** ** The life of an index *)

Section Lifecycle.
Context {RowSet : Type} `{RowSetInterface RowSet}.

(** The objects a program can hold: the one the constructor makes, and the
    one that a call of [Reset] which returns leaves behind.  (After the
    fatal check there is no program left to hold one.) *)
Inductive reachable : RowSetTree RowSet -> Prop :=
| reachable_new : reachable RowSetTree_new
| reachable_Reset (rowsets : list RowSet) (t : RowSetTree RowSet)
                  (s : Status) (t' : RowSetTree RowSet) :
    reachable t -> Reset rowsets t = Returned s t' -> reachable t'.

End Lifecycle.

(** ** Sample rowsets

    A rowset on disk answers [GetBounds] with its first and last key, a
    rowset in memory with NotSupported; a broken one fails with the code
    it is given. *)
Inductive SampleRowSet : Type :=
| DiskRowSet (name first_key last_key : string)
| MemRowSet (name : string)
| BrokenRowSet (name : string) (code : N).

#[export] Instance SampleRowSetInterface : RowSetInterface SampleRowSet := {
  GetBounds rs :=
    match rs with
    | DiskRowSet _ first_key last_key =>
        (OK, Slice.of_string first_key, Slice.of_string last_key)
    | MemRowSet _ => (NotSupported "no bounds", [], [])
    | BrokenRowSet _ code => (OtherError code "bounds unreadable", [], [])
    end
}.

Definition rsA : SampleRowSet := DiskRowSet "A" "a" "c".
Definition rsB : SampleRowSet := DiskRowSet "B" "b" "d".
Definition rsC : SampleRowSet := MemRowSet "C".
Definition rsF : SampleRowSet := DiskRowSet "F" "f" "h".
Definition rsX : SampleRowSet := BrokenRowSet "X" 5.

(** The index built from A[a,c], B[b,d] and the unbounded C. *)
Definition sample_tree : RowSetTree SampleRowSet :=
  Eval vm_compute in
    match Reset [rsA; rsB; rsC] RowSetTree_new with
    | Returned _ t => t
    | CheckFailed t => t
    end.

(** * Properties *)

(** ** The order on slices *)

Lemma Slice_compare_range (a b : Slice) :
  Slice.compare a b = -1 \/ Slice.compare a b = 0 \/ Slice.compare a b = 1.
Proof.
  revert b; induction a as [|x a IH]; intros [|y b]; simpl; auto.
  destruct (N.compare _ _); auto.
Qed.

Lemma Slice_compare_refl (a : Slice) : Slice.compare a a = 0.
Proof.
  induction a as [|x a IH]; simpl; [reflexivity|].
  now rewrite N.compare_refl.
Qed.

Lemma Slice_compare_antisym (a b : Slice) :
  Slice.compare b a = - Slice.compare a b.
Proof.
  revert b; induction a as [|x a IH]; intros [|y b]; simpl; try reflexivity.
  rewrite (N.compare_antisym (Byte.to_N x) (Byte.to_N y)).
  destruct (N.compare (Byte.to_N x) (Byte.to_N y)); simpl; auto.
Qed.

Lemma Byte_to_N_inj (x y : byte) : Byte.to_N x = Byte.to_N y -> x = y.
Proof.
  intros E.
  assert (Some x = Some y) as S by now rewrite <- !Byte.of_to_N, E.
  now injection S.
Qed.

Lemma Slice_compare_eq (a b : Slice) : Slice.compare a b = 0 -> a = b.
Proof.
  revert b; induction a as [|x a IH]; intros [|y b]; simpl; try easy.
  destruct (N.compare_spec (Byte.to_N x) (Byte.to_N y)) as [E| |]; try easy.
  intros C. apply Byte_to_N_inj in E. apply IH in C. congruence.
Qed.

Lemma Slice_le_trans (a b c : Slice) :
  Slice.le a b -> Slice.le b c -> Slice.le a c.
Proof.
  unfold Slice.le.
  revert b c; induction a as [|x a IH]; intros [|y b] [|z c]; simpl;
    try lia.
  destruct (N.compare_spec (Byte.to_N x) (Byte.to_N y)) as [E1|L1|G1];
    destruct (N.compare_spec (Byte.to_N y) (Byte.to_N z)) as [E2|L2|G2];
    destruct (N.compare_spec (Byte.to_N x) (Byte.to_N z)) as [E3|L3|G3];
    try lia.
  apply IH.
Qed.

Lemma Slice_le_total (a b : Slice) : Slice.le a b \/ Slice.le b a.
Proof.
  unfold Slice.le. rewrite (Slice_compare_antisym a b). lia.
Qed.

Lemma Comparator_false_le (a b : Slice) :
  Slice.Comparator b a = false <-> Slice.le a b.
Proof.
  unfold Slice.Comparator, Slice.le.
  rewrite Z.ltb_ge, (Slice_compare_antisym a b). lia.
Qed.

Lemma Comparator_asym (a b : Slice) :
  Slice.Comparator a b = true -> Slice.Comparator b a = false.
Proof.
  unfold Slice.Comparator.
  rewrite Z.ltb_lt, Z.ltb_ge, (Slice_compare_antisym a b). lia.
Qed.

(** ** The contract of std::sort *)

Section StdSortFacts.
Context {A : Type} (comp : A -> A -> bool).

Lemma sort_insert_perm (x : A) (l : list A) :
  Permutation (sort_insert comp x l) (x :: l).
Proof.
  induction l as [|y l IH]; simpl; [reflexivity|].
  destruct (comp y x); [|reflexivity].
  rewrite IH. apply perm_swap.
Qed.

Lemma std_sort_perm (l : list A) : Permutation (std_sort comp l) l.
Proof.
  induction l as [|x l IH]; simpl; [reflexivity|].
  rewrite sort_insert_perm. now apply perm_skip.
Qed.

Hypothesis comp_asym : forall a b, comp a b = true -> comp b a = false.

Lemma sort_insert_sorted (x : A) (l : list A) :
  Sorted (fun a b => comp b a = false) l ->
  Sorted (fun a b => comp b a = false) (sort_insert comp x l).
Proof.
  induction l as [|y l IH]; simpl; intros S.
  - repeat constructor.
  - destruct (comp y x) eqn:C.
    + inversion S as [|? ? S' R]; subst.
      constructor; [now apply IH|].
      destruct l as [|z l]; simpl.
      * constructor. now apply comp_asym.
      * destruct (comp z x); constructor.
        -- now inversion R.
        -- now apply comp_asym.
    + constructor; [assumption|]. now constructor.
Qed.

Lemma std_sort_sorted (l : list A) :
  Sorted (fun a b => comp b a = false) (std_sort comp l).
Proof.
  induction l as [|x l IH]; simpl; [constructor|].
  now apply sort_insert_sorted.
Qed.

End StdSortFacts.

(** ** The loop of Reset *)

Section ResetFacts.
Context {RowSet : Type} `{RowSetInterface RowSet}.

(** One turn of the loop, by the branch the rowset takes. *)
Lemma Reset_loop_cons (rs : RowSet) (rest : list RowSet)
      (l : ResetLocals RowSet) :
  Reset_loop (rs :: rest) l =
  if is_unbounded rs then
    Reset_loop rest {| entries := entries l;
                       unbounded := unbounded l ++ [rs];
                       endpoints := endpoints l |}
  else if bounds_failed rs then inl (bounds_status rs)
  else
    Reset_loop rest
      {| entries := entries l ++ [bounded_entry rs];
         unbounded := unbounded l;
         endpoints := endpoints l ++ endpoints_of (bounded_entry rs) |}.
Proof.
  simpl. unfold is_unbounded, bounds_failed, bounded_entry, bounds_status.
  destruct (GetBounds rs) as [[s mn] mx]; simpl.
  destruct s; reflexivity.
Qed.

(** Each rowset takes exactly one of the three branches. *)
Lemma branch_cases (rs : RowSet) :
  (is_unbounded rs = true /\ bounds_failed rs = false /\ is_bounded rs = false)
  \/ (is_unbounded rs = false /\ bounds_failed rs = true
      /\ is_bounded rs = false)
  \/ (is_unbounded rs = false /\ bounds_failed rs = false
      /\ is_bounded rs = true /\ bounds_status rs = OK).
Proof.
  unfold is_unbounded, bounds_failed, is_bounded.
  destruct (bounds_status rs); simpl; auto 10.
Qed.

Lemma bounds_failed_not_OK (rs : RowSet) :
  bounds_failed rs = true -> bounds_status rs <> OK.
Proof.
  unfold bounds_failed. destruct (bounds_status rs); simpl; congruence.
Qed.

Ltac branch rs :=
  destruct (branch_cases rs) as [(U & F & B)|[(U & F & B)|(U & F & B & S)]].

(** A loop that runs to its end has met no failing rowset, and has filed
    every rowset, in order, either as an entry with its two endpoints or as
    unbounded. *)
Lemma Reset_loop_inr (rowsets : list RowSet) (l l' : ResetLocals RowSet) :
  Reset_loop rowsets l = inr l' ->
  Forall (fun rs => bounds_failed rs = false) rowsets
  /\ entries l' = entries l ++ map bounded_entry (filter is_bounded rowsets)
  /\ unbounded l' = unbounded l ++ filter is_unbounded rowsets
  /\ endpoints l' =
     endpoints l
       ++ flat_map endpoints_of (map bounded_entry (filter is_bounded rowsets)).
Proof.
  revert l; induction rowsets as [|rs rest IH]; intros l.
  - simpl. intros [= <-]. now rewrite !app_nil_r.
  - rewrite Reset_loop_cons. cbn [filter].
    branch rs; rewrite U, ?F, B.
    + intros E. apply IH in E as (A1 & A2 & A3 & A4). cbn in *.
      rewrite A2, A3, A4, <- app_assoc. auto.
    + discriminate.
    + intros E. apply IH in E as (A1 & A2 & A3 & A4). cbn in *.
      rewrite A2, A3, A4, <- !app_assoc. auto.
Qed.

(** Without a failing rowset the loop runs to its end. *)
Lemma Reset_loop_total (rowsets : list RowSet) (l : ResetLocals RowSet) :
  Forall (fun rs => bounds_failed rs = false) rowsets ->
  exists l', Reset_loop rowsets l = inr l'.
Proof.
  revert l; induction rowsets as [|rs rest IH]; intros l A.
  - now exists l.
  - inversion A as [|? ? F A']; subst.
    rewrite Reset_loop_cons, F. destruct (is_unbounded rs); now apply IH.
Qed.

(** The early return hands back the status of the first failing rowset. *)
Lemma Reset_loop_inl (rowsets : list RowSet) (l : ResetLocals RowSet)
      (s : Status) :
  Reset_loop rowsets l = inl s ->
  exists pre rs post,
    rowsets = pre ++ rs :: post
    /\ Forall (fun r => bounds_failed r = false) pre
    /\ bounds_failed rs = true
    /\ s = bounds_status rs.
Proof.
  revert l; induction rowsets as [|rs rest IH]; intros l; [discriminate|].
  rewrite Reset_loop_cons.
  branch rs; rewrite U, ?F.
  - intros E. apply IH in E as (pre & r & post & -> & A & Fr & ->).
    exists (rs :: pre), r, post. auto.
  - intros [= <-]. exists [], rs, rest. auto.
  - intros E. apply IH in E as (pre & r & post & -> & A & Fr & ->).
    exists (rs :: pre), r, post. auto.
Qed.

(** With a failing rowset in the input the loop returns early, at the first
    one. *)
Lemma Reset_loop_fails (rowsets : list RowSet) (l : ResetLocals RowSet) :
  Exists (fun rs => bounds_failed rs = true) rowsets ->
  exists pre rs post,
    rowsets = pre ++ rs :: post
    /\ Forall (fun r => bounds_failed r = false) pre
    /\ bounds_failed rs = true
    /\ Reset_loop rowsets l = inl (bounds_status rs).
Proof.
  intros E.
  destruct (Reset_loop rowsets l) as [s|l'] eqn:R.
  - apply Reset_loop_inl in R as (pre & rs & post & -> & A & F & ->).
    now exists pre, rs, post.
  - apply Reset_loop_inr in R as (A & _).
    apply Exists_exists in E as (rs & I & F).
    rewrite Forall_forall in A. apply A in I. congruence.
Qed.

(** What a successful [Reset] leaves in the object. *)
Lemma Reset_success (rowsets : list RowSet) (t0 t : RowSetTree RowSet) :
  Reset rowsets t0 = Returned OK t ->
  initted_ t0 = false
  /\ Forall (fun rs => bounds_failed rs = false) rowsets
  /\ entries_ t = map bounded_entry (filter is_bounded rowsets)
  /\ unbounded_rowsets_ t = filter is_unbounded rowsets
  /\ tree_ t = Some (IntervalTree.Build (entries_ t))
  /\ key_endpoints_ t =
     std_sort RSEndpointBySliceCompare (flat_map endpoints_of (entries_ t))
  /\ all_rowsets_ t = rowsets
  /\ initted_ t = true.
Proof.
  unfold Reset. destruct (initted_ t0); [discriminate|].
  destruct (Reset_loop rowsets no_locals) as [s|l] eqn:R.
  - intros [= -> ->].
    apply Reset_loop_inl in R as (pre & rs & post & _ & _ & F & S).
    symmetry in S. now apply bounds_failed_not_OK in F.
  - intros [= <-]. cbn.
    apply Reset_loop_inr in R as (A & -> & -> & ->). cbn. auto 10.
Qed.

(** [Reset] succeeds on a fresh object when no rowset fails. *)
Lemma Reset_succeeds (rowsets : list RowSet) (t0 : RowSetTree RowSet) :
  initted_ t0 = false ->
  Forall (fun rs => bounds_failed rs = false) rowsets ->
  exists t, Reset rowsets t0 = Returned OK t.
Proof.
  intros I A. unfold Reset. rewrite I.
  destruct (Reset_loop_total rowsets no_locals A) as (l & ->). eauto.
Qed.

(** ** What the queries return on a built index *)

Lemma rowset_bounded_entries (l : list RowSet) :
  map rowset (map bounded_entry l) = l.
Proof.
  rewrite map_map. cbn. apply map_id.
Qed.

Lemma In_bounded_entries (rowsets : list RowSet) (e : RowSetWithBounds RowSet) :
  In e (map bounded_entry (filter is_bounded rowsets)) <->
  e = bounded_entry (rowset e) /\ In (rowset e) rowsets
  /\ is_bounded (rowset e) = true.
Proof.
  rewrite in_map_iff. split.
  - intros (rs & <- & I). apply filter_In in I. cbn. tauto.
  - intros (E & I & B). exists (rowset e). rewrite filter_In. auto.
Qed.

(** A bounded rowset has status OK, and its entry holds the two keys that
    [GetBounds] gave. *)
Lemma bounded_entry_bounds (rs : RowSet) :
  is_bounded rs = true ->
  GetBounds rs = (OK, min_key (bounded_entry rs), max_key (bounded_entry rs)).
Proof.
  intros Bd. branch rs; try congruence.
  unfold bounds_status in S. cbn. unfold Slice.ToString.
  destruct (GetBounds rs) as [[s mn] mx]. cbn in *. now subst.
Qed.

Lemma FindRowSetsWithKeyInRange_built (rowsets : list RowSet)
      (t0 t : RowSetTree RowSet) (key : Slice) (out : list RowSet) :
  Reset rowsets t0 = Returned OK t ->
  FindRowSetsWithKeyInRange t key out =
  Some (out ++ unbounded_rowsets_ t
            ++ map rowset
                 (filter (IntervalTree.contains_point key) (entries_ t))).
Proof.
  intros R. apply Reset_success in R as (_ & _ & _ & _ & T & _ & _ & I).
  unfold FindRowSetsWithKeyInRange. rewrite I, T. cbn.
  now rewrite app_assoc.
Qed.

Lemma FindRowSetsIntersectingInterval_built (rowsets : list RowSet)
      (t0 t : RowSetTree RowSet) (lo hi : Slice) (out : list RowSet) :
  Reset rowsets t0 = Returned OK t ->
  FindRowSetsIntersectingInterval t lo hi out =
  Some (out ++ unbounded_rowsets_ t
            ++ map rowset
                 (filter (IntervalTree.intersects lo hi) (entries_ t))).
Proof.
  intros R. apply Reset_success in R as (_ & _ & _ & _ & T & _ & _ & I).
  unfold FindRowSetsIntersectingInterval. rewrite I, T. cbn.
  now rewrite app_assoc.
Qed.

(** Whether a rowset with an entry is among the rowsets that a filter of the
    entries lets through is decided by its own entry: every entry of the
    rowset is the same, and the rowset is not on the unbounded list. *)
Lemma In_filtered_entries (rowsets : list RowSet) (t0 t : RowSetTree RowSet)
      (e : RowSetWithBounds RowSet) (f : RowSetWithBounds RowSet -> bool) :
  Reset rowsets t0 = Returned OK t ->
  In e (entries_ t) ->
  In (rowset e) (unbounded_rowsets_ t ++ map rowset (filter f (entries_ t)))
  <-> f e = true.
Proof.
  intros R I.
  apply Reset_success in R as (_ & _ & Et & Ut & _).
  rewrite Et in I |- *. rewrite Ut.
  pose proof (proj1 (In_bounded_entries _ _) I) as (Ee & Ie & Be).
  rewrite in_app_iff, filter_In, in_map_iff. split.
  - intros [(_ & Ue)|(e' & Er & I')].
    + branch (rowset e); congruence.
    + apply filter_In in I' as (I' & F).
      apply In_bounded_entries in I' as (Ee' & _).
      rewrite Ee, <- Er, <- Ee'. exact F.
  - intros F. right. exists e. rewrite filter_In. auto.
Qed.

Lemma contains_point_iff (key : Slice) (e : RowSetWithBounds RowSet) :
  IntervalTree.contains_point key e = true <->
  Slice.le (min_key e) key /\ Slice.le key (max_key e).
Proof.
  unfold IntervalTree.contains_point, Slice.le. cbn.
  now rewrite andb_true_iff, !Z.leb_le.
Qed.

Lemma intersects_iff (lo hi : Slice) (e : RowSetWithBounds RowSet) :
  IntervalTree.intersects lo hi e = true <->
  Slice.le (min_key e) hi /\ Slice.le lo (max_key e).
Proof.
  unfold IntervalTree.intersects, Slice.le. cbn.
  now rewrite andb_true_iff, !Z.leb_le.
Qed.

Lemma entry_of_input (rowsets : list RowSet) (t0 t : RowSetTree RowSet)
      (e : RowSetWithBounds RowSet) :
  Reset rowsets t0 = Returned OK t ->
  In e (entries_ t) ->
  In (rowset e) rowsets
  /\ GetBounds (rowset e) = (OK, min_key e, max_key e).
Proof.
  intros R I. apply Reset_success in R as (_ & _ & E & _).
  rewrite E in I. apply In_bounded_entries in I as (Ee & Ie & Be).
  split; [assumption|]. rewrite Ee at 2 3. now apply bounded_entry_bounds.
Qed.

(** ** Point and range queries *)

(** C1: on an index that [Reset] built, a rowset with an entry (its bounds
    as [GetBounds] gave them at build time) is among the rowsets that
    [FindRowSetsWithKeyInRange] appends for a key if and only if
    min_key <= key <= max_key in the byte-lexicographic order. *)
Theorem FindRowSetsWithKeyInRange_bounded (rowsets : list RowSet)
        (t0 t : RowSetTree RowSet) (e : RowSetWithBounds RowSet)
        (key : Slice) (out : list RowSet) :
  Reset rowsets t0 = Returned OK t ->
  In e (entries_ t) ->
  (In (rowset e) rowsets
   /\ GetBounds (rowset e) = (OK, min_key e, max_key e))
  /\ exists res,
      FindRowSetsWithKeyInRange t key out = Some (out ++ res)
      /\ (In (rowset e) res <->
          Slice.le (min_key e) key /\ Slice.le key (max_key e)).
Proof.
  intros R I. split; [now apply (entry_of_input rowsets t0 t)|].
  eexists. split; [now apply (FindRowSetsWithKeyInRange_built rowsets t0)|].
  rewrite (In_filtered_entries rowsets t0 t e _ R I).
  apply contains_point_iff.
Qed.

(** C2: on an index that [Reset] built, for a query range with lo <= hi, a
    rowset with an entry is among the rowsets that
    [FindRowSetsIntersectingInterval] appends if and only if
    min_key <= hi and lo <= max_key, both ends inclusive, in the
    byte-lexicographic order. *)
Theorem FindRowSetsIntersectingInterval_bounded (rowsets : list RowSet)
        (t0 t : RowSetTree RowSet) (e : RowSetWithBounds RowSet)
        (lo hi : Slice) (out : list RowSet) :
  Reset rowsets t0 = Returned OK t ->
  In e (entries_ t) ->
  Slice.le lo hi ->
  (In (rowset e) rowsets
   /\ GetBounds (rowset e) = (OK, min_key e, max_key e))
  /\ exists res,
      FindRowSetsIntersectingInterval t lo hi out = Some (out ++ res)
      /\ (In (rowset e) res <->
          Slice.le (min_key e) hi /\ Slice.le lo (max_key e)).
Proof.
  intros R I _. split; [now apply (entry_of_input rowsets t0 t)|].
  eexists.
  split; [now apply (FindRowSetsIntersectingInterval_built rowsets t0)|].
  rewrite (In_filtered_entries rowsets t0 t e _ R I).
  apply intersects_iff.
Qed.

(** C3: on an index that [Reset] built, every rowset on the unbounded list
    is among the rowsets appended by a point query and by a range query,
    whatever the key or the range. *)
Theorem unbounded_always_returned (rowsets : list RowSet)
        (t0 t : RowSetTree RowSet) (u : RowSet) :
  Reset rowsets t0 = Returned OK t ->
  In u (unbounded_rowsets_ t) ->
  (forall key out, exists res,
      FindRowSetsWithKeyInRange t key out = Some (out ++ res) /\ In u res)
  /\ (forall lo hi out, exists res,
        FindRowSetsIntersectingInterval t lo hi out = Some (out ++ res)
        /\ In u res).
Proof.
  intros R I. split; intros; eexists; split.
  - now apply (FindRowSetsWithKeyInRange_built rowsets t0).
  - apply in_app_iff; now left.
  - now apply (FindRowSetsIntersectingInterval_built rowsets t0).
  - apply in_app_iff; now left.
Qed.

(** C9: both queries append to the output vector: what was in it stays in
    front, in place, and the rowsets found follow; what is appended does not
    depend on what was there. *)
Theorem queries_append (rowsets : list RowSet) (t0 t : RowSetTree RowSet)
        (key lo hi : Slice) (out : list RowSet) :
  Reset rowsets t0 = Returned OK t ->
  (exists res,
      FindRowSetsWithKeyInRange t key [] = Some res
      /\ FindRowSetsWithKeyInRange t key out = Some (out ++ res))
  /\ (exists res,
        FindRowSetsIntersectingInterval t lo hi [] = Some res
        /\ FindRowSetsIntersectingInterval t lo hi out = Some (out ++ res)).
Proof.
  intros R. split; eexists; split.
  - now rewrite (FindRowSetsWithKeyInRange_built rowsets t0 t).
  - now rewrite (FindRowSetsWithKeyInRange_built rowsets t0 t).
  - now rewrite (FindRowSetsIntersectingInterval_built rowsets t0 t).
  - now rewrite (FindRowSetsIntersectingInterval_built rowsets t0 t).
Qed.

(** C10: what either query appends is first the unbounded rowsets, in the
    order in which they stood in the input of [Reset], and after them
    rowsets of matching entries only; none of these is an unbounded
    rowset. *)
Theorem unbounded_before_bounded (rowsets : list RowSet)
        (t0 t : RowSetTree RowSet) (key lo hi : Slice) (out : list RowSet) :
  Reset rowsets t0 = Returned OK t ->
  (exists from_tree,
      FindRowSetsWithKeyInRange t key out =
      Some (out ++ filter is_unbounded rowsets ++ map rowset from_tree)
      /\ from_tree = filter (IntervalTree.contains_point key) (entries_ t)
      /\ Forall (fun e => is_unbounded (rowset e) = false) from_tree)
  /\ (exists from_tree,
        FindRowSetsIntersectingInterval t lo hi out =
        Some (out ++ filter is_unbounded rowsets ++ map rowset from_tree)
        /\ from_tree = filter (IntervalTree.intersects lo hi) (entries_ t)
        /\ Forall (fun e => is_unbounded (rowset e) = false) from_tree).
Proof.
  intros R.
  assert (forall f, Forall (fun e => is_unbounded (rowset e) = false)
                           (filter f (entries_ t))) as NU.
  { intros f. apply Forall_forall. intros e I.
    apply filter_In in I as (I & _).
    apply Reset_success in R as (_ & _ & Et & _).
    rewrite Et in I. apply In_bounded_entries in I as (_ & _ & Bd).
    branch (rowset e); congruence. }
  pose proof (Reset_success _ _ _ R) as (_ & _ & _ & Ut & _).
  split; eexists; (split; [|split; [reflexivity|apply NU]]); rewrite <- Ut.
  - now apply (FindRowSetsWithKeyInRange_built rowsets t0).
  - now apply (FindRowSetsIntersectingInterval_built rowsets t0).
Qed.

(** ** What Reset builds *)

(** The rowsets that do not fail split into the bounded and the unbounded
    ones, occurrence by occurrence. *)
Lemma partition_perm (rowsets : list RowSet) :
  Forall (fun rs => bounds_failed rs = false) rowsets ->
  Permutation rowsets
    (filter is_bounded rowsets ++ filter is_unbounded rowsets).
Proof.
  induction 1 as [|rs rest Fr A IH]; cbn [filter]; [constructor|].
  branch rs; rewrite U, B; try congruence.
  - now apply Permutation_cons_app.
  - cbn. now apply perm_skip.
Qed.

Lemma length_endpoints (es : list (RowSetWithBounds RowSet)) :
  List.length (flat_map endpoints_of es) = (2 * List.length es)%nat.
Proof.
  induction es as [|e es IH]; cbn [flat_map List.length app endpoints_of];
    [reflexivity|].
  rewrite IH. lia.
Qed.

Lemma In_endpoints (es : list (RowSetWithBounds RowSet))
      (p : RSEndpoint RowSet) :
  In p (flat_map endpoints_of es) ->
  exists e, In e es /\ rowset_ p = rowset e.
Proof.
  rewrite in_flat_map. intros (e & I & [<-|[<-|[]]]); now exists e.
Qed.

Lemma Sorted_weaken {A : Type} (R R' : A -> A -> Prop) (l : list A) :
  (forall a b, R a b -> R' a b) -> Sorted R l -> Sorted R' l.
Proof.
  intros W. induction 1 as [|a l S IH Hd]; constructor; [assumption|].
  destruct Hd; constructor; auto.
Qed.

Lemma std_sort_endpoints_sorted (l : list (RSEndpoint RowSet)) :
  endpoints_sorted (std_sort RSEndpointBySliceCompare l).
Proof.
  unfold endpoints_sorted. apply Sorted_StronglySorted.
  - intros a b c. cbn. apply Slice_le_trans.
  - apply Sorted_weaken with
      (R := fun a b => RSEndpointBySliceCompare b a = false).
    + intros a b. unfold RSEndpointBySliceCompare. cbn.
      apply Comparator_false_le.
    + apply std_sort_sorted. intros a b. apply Comparator_asym.
Qed.

(** C4: when some rowset's [GetBounds] fails with a status other than
    NotSupported, [Reset] on an uninitialized object returns the status of
    the first such rowset and leaves the object as it was: still
    uninitialized, every member unchanged, and not to be queried. *)
Theorem Reset_fails_fast (rowsets : list RowSet) (t : RowSetTree RowSet) :
  initted_ t = false ->
  Exists (fun rs => bounds_failed rs = true) rowsets ->
  exists pre rs post,
    rowsets = pre ++ rs :: post
    /\ Forall (fun r => bounds_failed r = false) pre
    /\ bounds_failed rs = true
    /\ bounds_status rs <> OK
    /\ Reset rowsets t = Returned (bounds_status rs) t
    /\ (forall key out, FindRowSetsWithKeyInRange t key out = None)
    /\ (forall lo hi out,
          FindRowSetsIntersectingInterval t lo hi out = None).
Proof.
  intros I E.
  destruct (Reset_loop_fails rowsets no_locals E)
    as (pre & rs & post & Eq & A & Fr & L).
  exists pre, rs, post. repeat split; try assumption.
  - now apply bounds_failed_not_OK.
  - unfold Reset. now rewrite I, L.
  - intros. unfold FindRowSetsWithKeyInRange. now rewrite I.
  - intros. unfold FindRowSetsIntersectingInterval. now rewrite I.
Qed.

(** C5: after a successful [Reset] the entries are the input rowsets whose
    [GetBounds] succeeded and the unbounded list is the input rowsets whose
    [GetBounds] said NotSupported, both in input order; the input is a
    rearrangement of the two together, so every occurrence is filed once;
    no rowset is in both; and the two counts add up to the size of the
    input. *)
Theorem Reset_partitions (rowsets : list RowSet) (t0 t : RowSetTree RowSet) :
  Reset rowsets t0 = Returned OK t ->
  map rowset (entries_ t) = filter is_bounded rowsets
  /\ unbounded_rowsets_ t = filter is_unbounded rowsets
  /\ Permutation rowsets (map rowset (entries_ t) ++ unbounded_rowsets_ t)
  /\ (List.length (entries_ t) + List.length (unbounded_rowsets_ t)
      = List.length rowsets)%nat
  /\ forall rs, In rs rowsets ->
       (bounds_status rs = OK
        /\ In rs (map rowset (entries_ t))
        /\ ~ In rs (unbounded_rowsets_ t))
       \/ (IsNotSupported (bounds_status rs) = true
           /\ In rs (unbounded_rowsets_ t)
           /\ ~ In rs (map rowset (entries_ t))).
Proof.
  intros R. apply Reset_success in R as (_ & A & Et & Ut & _).
  assert (map rowset (entries_ t) = filter is_bounded rowsets) as Mt
      by now rewrite Et, rowset_bounded_entries.
  pose proof (partition_perm rowsets A) as P.
  rewrite Mt, Ut. repeat split; try assumption.
  - apply Permutation_length in P.
    rewrite length_app in P. rewrite P.
    now rewrite <- Mt, length_map.
  - intros rs I. rewrite !filter_In.
    rewrite Forall_forall in A. specialize (A rs I).
    branch rs; try congruence.
    + right. repeat split; try assumption. intros (_ & Bd). congruence.
    + left. repeat split; try assumption. intros (_ & Ud). congruence.
Qed.

(** C6: after a successful [Reset] the endpoint sequence holds, for every
    entry, one START at its min_key and one STOP at its max_key and nothing
    else, so it is twice as long as the entries; and it is in ascending
    order of the keys under the comparison of the interval tree's traits. *)
Theorem Reset_endpoints (rowsets : list RowSet) (t0 t : RowSetTree RowSet) :
  Reset rowsets t0 = Returned OK t ->
  Permutation (key_endpoints_ t) (flat_map endpoints_of (entries_ t))
  /\ List.length (key_endpoints_ t) = (2 * List.length (entries_ t))%nat
  /\ endpoints_sorted (key_endpoints_ t).
Proof.
  intros R. apply Reset_success in R as (_ & _ & _ & _ & _ & Kt & _).
  rewrite Kt. repeat split.
  - apply std_sort_perm.
  - rewrite (Permutation_length (std_sort_perm _ _)). apply length_endpoints.
  - apply std_sort_endpoints_sorted.
Qed.

(** C7: [Reset] on an object that is already initialized stops at the
    fatal check, with the object as it was. *)
Theorem Reset_twice_is_fatal (rowsets : list RowSet) (t : RowSetTree RowSet) :
  initted_ t = true -> Reset rowsets t = CheckFailed t.
Proof.
  intros I. unfold Reset. now rewrite I.
Qed.

(** C8: a rowset whose [GetBounds] says NotSupported makes the loop go on
    with the rowset appended to the unbounded list and the entries and
    endpoints untouched; and when no rowset fails in another way, [Reset]
    on an uninitialized object returns OK, with every such rowset on the
    unbounded list and in no entry and no endpoint. *)
Theorem NotSupported_is_not_an_error :
  (forall (rs : RowSet) rest l,
      IsNotSupported (bounds_status rs) = true ->
      Reset_loop (rs :: rest) l =
      Reset_loop rest {| entries := entries l;
                         unbounded := unbounded l ++ [rs];
                         endpoints := endpoints l |})
  /\ (forall (rowsets : list RowSet) (t0 : RowSetTree RowSet),
        initted_ t0 = false ->
        Forall (fun rs => bounds_failed rs = false) rowsets ->
        exists t,
          Reset rowsets t0 = Returned OK t
          /\ forall rs,
              In rs rowsets ->
              IsNotSupported (bounds_status rs) = true ->
              In rs (unbounded_rowsets_ t)
              /\ ~ In rs (map rowset (entries_ t))
              /\ ~ In rs (map rowset_ (key_endpoints_ t))).
Proof.
  split.
  - intros rs rest l N. rewrite Reset_loop_cons.
    unfold is_unbounded. now rewrite N.
  - intros rowsets t0 I A.
    destruct (Reset_succeeds rowsets t0 I A) as (t & R).
    exists t. split; [assumption|]. intros rs Irs N.
    pose proof (Reset_success _ _ _ R) as (_ & _ & Et & Ut & _ & Kt & _).
    assert (~ In rs (map rowset (entries_ t))) as NE.
    { rewrite Et, rowset_bounded_entries, filter_In. intros (_ & Bd).
      branch rs; unfold is_unbounded in U; congruence. }
    repeat split; try assumption.
    + rewrite Ut, filter_In. auto.
    + intros Ik. apply in_map_iff in Ik as (p & <- & Ip).
      rewrite Kt in Ip.
      apply (Permutation_in _ (std_sort_perm _ _)) in Ip.
      apply In_endpoints in Ip as (e & Ie & Er).
      apply NE. rewrite Er. now apply in_map.
Qed.

End ResetFacts.

(** ** The scenarios of the specification, on the sample rowsets *)

Example scenario_point_hit :
  FindRowSetsWithKeyInRange sample_tree (Slice.of_string "b") []
  = Some [rsC; rsA; rsB].
Proof. reflexivity. Qed.

Example scenario_point_miss :
  FindRowSetsWithKeyInRange sample_tree (Slice.of_string "e") []
  = Some [rsC].
Proof. reflexivity. Qed.

Example scenario_range :
  exists t,
    Reset [rsA; rsF] RowSetTree_new = Returned OK t
    /\ FindRowSetsIntersectingInterval t
         (Slice.of_string "b") (Slice.of_string "g") []
       = Some [rsA; rsF].
Proof. eexists. split; reflexivity. Qed.

Example scenario_empty :
  exists t,
    Reset ([] : list SampleRowSet) RowSetTree_new = Returned OK t
    /\ FindRowSetsWithKeyInRange t (Slice.of_string "k") [] = Some []
    /\ FindRowSetsIntersectingInterval t
         (Slice.of_string "a") (Slice.of_string "z") [] = Some [].
Proof. eexists. repeat split; reflexivity. Qed.

Example scenario_all_unbounded :
  exists t,
    Reset [rsC; MemRowSet "D"] RowSetTree_new = Returned OK t
    /\ entries_ t = []
    /\ FindRowSetsWithKeyInRange t (Slice.of_string "k") []
       = Some [rsC; MemRowSet "D"].
Proof. eexists. repeat split; reflexivity. Qed.

Example scenario_bad_bounds :
  Reset [rsA; rsX; rsC] RowSetTree_new
  = Returned (OtherError 5 "bounds unreadable") RowSetTree_new.
Proof. reflexivity. Qed.

Example scenario_endpoints :
  key_endpoints_ sample_tree
  = [ Build_RSEndpoint rsA START (Slice.of_string "a");
      Build_RSEndpoint rsB START (Slice.of_string "b");
      Build_RSEndpoint rsA STOP (Slice.of_string "c");
      Build_RSEndpoint rsB STOP (Slice.of_string "d") ].
Proof. reflexivity. Qed.

(** ** The theorems at the sample index *)

Lemma sample_tree_built :
  Reset [rsA; rsB; rsC] RowSetTree_new = Returned OK sample_tree.
Proof. reflexivity. Qed.

Lemma FindRowSetsWithKeyInRange_bounded_witness :
  (In rsA [rsA; rsB; rsC]
   /\ GetBounds rsA = (OK, Slice.of_string "a", Slice.of_string "c"))
  /\ exists res,
      FindRowSetsWithKeyInRange sample_tree (Slice.of_string "b") [rsF]
      = Some ([rsF] ++ res)
      /\ (In rsA res <->
          Slice.le (Slice.of_string "a") (Slice.of_string "b")
          /\ Slice.le (Slice.of_string "b") (Slice.of_string "c")).
Proof.
  refine (FindRowSetsWithKeyInRange_bounded
            [rsA; rsB; rsC] RowSetTree_new sample_tree (bounded_entry rsA)
            (Slice.of_string "b") [rsF] _ _).
  - reflexivity.
  - simpl. left. reflexivity.
Defined.

Lemma FindRowSetsIntersectingInterval_bounded_witness :
  (In rsB [rsA; rsB; rsC]
   /\ GetBounds rsB = (OK, Slice.of_string "b", Slice.of_string "d"))
  /\ exists res,
      FindRowSetsIntersectingInterval sample_tree
        (Slice.of_string "d") (Slice.of_string "g") []
      = Some ([] ++ res)
      /\ (In rsB res <->
          Slice.le (Slice.of_string "b") (Slice.of_string "g")
          /\ Slice.le (Slice.of_string "d") (Slice.of_string "d")).
Proof.
  refine (FindRowSetsIntersectingInterval_bounded
            [rsA; rsB; rsC] RowSetTree_new sample_tree (bounded_entry rsB)
            (Slice.of_string "d") (Slice.of_string "g") [] _ _ _).
  - reflexivity.
  - simpl. right. left. reflexivity.
  - unfold Slice.le. simpl. lia.
Defined.

Lemma unbounded_always_returned_witness :
  (forall key out, exists res,
      FindRowSetsWithKeyInRange sample_tree key out = Some (out ++ res)
      /\ In rsC res)
  /\ (forall lo hi out, exists res,
        FindRowSetsIntersectingInterval sample_tree lo hi out
        = Some (out ++ res)
        /\ In rsC res).
Proof.
  apply (unbounded_always_returned
           [rsA; rsB; rsC] RowSetTree_new sample_tree rsC).
  - reflexivity.
  - simpl. left. reflexivity.
Defined.

Lemma Reset_fails_fast_witness :
  exists pre rs post,
    [rsA; rsC; rsX; rsB] = pre ++ rs :: post
    /\ Forall (fun r => bounds_failed r = false) pre
    /\ bounds_failed rs = true
    /\ bounds_status rs <> OK
    /\ Reset [rsA; rsC; rsX; rsB] RowSetTree_new
       = Returned (bounds_status rs) RowSetTree_new
    /\ (forall key out,
          FindRowSetsWithKeyInRange
            (RowSetTree_new : RowSetTree SampleRowSet) key out = None)
    /\ (forall lo hi out,
          FindRowSetsIntersectingInterval
            (RowSetTree_new : RowSetTree SampleRowSet) lo hi out = None).
Proof.
  apply (Reset_fails_fast [rsA; rsC; rsX; rsB] RowSetTree_new).
  - reflexivity.
  - apply Exists_cons_tl, Exists_cons_tl, Exists_cons_hd. reflexivity.
Defined.

Lemma Reset_partitions_witness :
  map rowset (entries_ sample_tree) = filter is_bounded [rsA; rsB; rsC]
  /\ unbounded_rowsets_ sample_tree = filter is_unbounded [rsA; rsB; rsC]
  /\ Permutation [rsA; rsB; rsC]
       (map rowset (entries_ sample_tree) ++ unbounded_rowsets_ sample_tree)
  /\ (List.length (entries_ sample_tree)
      + List.length (unbounded_rowsets_ sample_tree)
      = List.length [rsA; rsB; rsC])%nat
  /\ forall rs, In rs [rsA; rsB; rsC] ->
       (bounds_status rs = OK
        /\ In rs (map rowset (entries_ sample_tree))
        /\ ~ In rs (unbounded_rowsets_ sample_tree))
       \/ (IsNotSupported (bounds_status rs) = true
           /\ In rs (unbounded_rowsets_ sample_tree)
           /\ ~ In rs (map rowset (entries_ sample_tree))).
Proof.
  apply (Reset_partitions [rsA; rsB; rsC] RowSetTree_new sample_tree).
  reflexivity.
Defined.

Lemma Reset_endpoints_witness :
  Permutation (key_endpoints_ sample_tree)
    (flat_map endpoints_of (entries_ sample_tree))
  /\ List.length (key_endpoints_ sample_tree)
     = (2 * List.length (entries_ sample_tree))%nat
  /\ endpoints_sorted (key_endpoints_ sample_tree).
Proof.
  apply (Reset_endpoints [rsA; rsB; rsC] RowSetTree_new sample_tree).
  reflexivity.
Defined.

Lemma Reset_twice_is_fatal_witness :
  Reset [rsF] sample_tree = CheckFailed sample_tree.
Proof.
  apply (Reset_twice_is_fatal [rsF] sample_tree). reflexivity.
Defined.

Lemma NotSupported_is_not_an_error_witness :
  exists t,
    Reset [rsA; rsC; rsB] RowSetTree_new = Returned OK t
    /\ forall rs,
        In rs [rsA; rsC; rsB] ->
        IsNotSupported (bounds_status rs) = true ->
        In rs (unbounded_rowsets_ t)
        /\ ~ In rs (map rowset (entries_ t))
        /\ ~ In rs (map rowset_ (key_endpoints_ t)).
Proof.
  apply (proj2 NotSupported_is_not_an_error [rsA; rsC; rsB] RowSetTree_new).
  - reflexivity.
  - repeat constructor.
Defined.

Lemma queries_append_witness :
  (exists res,
      FindRowSetsWithKeyInRange sample_tree (Slice.of_string "b") []
      = Some res
      /\ FindRowSetsWithKeyInRange sample_tree (Slice.of_string "b")
           [rsF; rsA]
         = Some ([rsF; rsA] ++ res))
  /\ (exists res,
        FindRowSetsIntersectingInterval sample_tree
          (Slice.of_string "a") (Slice.of_string "b") [] = Some res
        /\ FindRowSetsIntersectingInterval sample_tree
             (Slice.of_string "a") (Slice.of_string "b") [rsF; rsA]
           = Some ([rsF; rsA] ++ res)).
Proof.
  apply (queries_append [rsA; rsB; rsC] RowSetTree_new sample_tree).
  reflexivity.
Defined.

Lemma unbounded_before_bounded_witness :
  (exists from_tree,
      FindRowSetsWithKeyInRange sample_tree (Slice.of_string "b") [rsF]
      = Some ([rsF] ++ filter is_unbounded [rsA; rsB; rsC]
                    ++ map rowset from_tree)
      /\ from_tree
         = filter (IntervalTree.contains_point (Slice.of_string "b"))
             (entries_ sample_tree)
      /\ Forall (fun e => is_unbounded (rowset e) = false) from_tree)
  /\ (exists from_tree,
        FindRowSetsIntersectingInterval sample_tree
          (Slice.of_string "a") (Slice.of_string "a") [rsF]
        = Some ([rsF] ++ filter is_unbounded [rsA; rsB; rsC]
                      ++ map rowset from_tree)
        /\ from_tree
           = filter (IntervalTree.intersects
                       (Slice.of_string "a") (Slice.of_string "a"))
               (entries_ sample_tree)
        /\ Forall (fun e => is_unbounded (rowset e) = false) from_tree).
Proof.
  apply (unbounded_before_bounded [rsA; rsB; rsC] RowSetTree_new sample_tree).
  reflexivity.
Defined.

(** * Further properties of the code *)

Section MoreResetFacts.
Context {RowSet : Type} `{RowSetInterface RowSet}.

Ltac by_branch rs :=
  destruct (branch_cases rs) as [(U & F & B)|[(U & F & B)|(U & F & B & S)]].

Lemma bounds_failed_not_NotSupported (rs : RowSet) :
  bounds_failed rs = true -> IsNotSupported (bounds_status rs) = false.
Proof.
  unfold bounds_failed. destruct (bounds_status rs); simpl; congruence.
Qed.

(** The object that a successful [Reset] leaves, written out. *)
Lemma Reset_success_eq (rowsets : list RowSet) (t0 t : RowSetTree RowSet) :
  Reset rowsets t0 = Returned OK t ->
  t = {| entries_ := map bounded_entry (filter is_bounded rowsets);
         unbounded_rowsets_ := filter is_unbounded rowsets;
         tree_ := Some (IntervalTree.Build
                          (map bounded_entry (filter is_bounded rowsets)));
         key_endpoints_ :=
           std_sort RSEndpointBySliceCompare
             (flat_map endpoints_of
                (map bounded_entry (filter is_bounded rowsets)));
         all_rowsets_ := rowsets;
         initted_ := true |}.
Proof.
  intros R.
  apply Reset_success in R as (_ & _ & Et & Ut & Tt & Kt & At & It).
  destruct t; cbn in *. subst. reflexivity.
Qed.

(** X1: [Reset] returns OK exactly when the object was not initialized and
    no rowset of the input fails with a status other than NotSupported. *)
Theorem Reset_OK_iff (rowsets : list RowSet) (t0 : RowSetTree RowSet) :
  (exists t, Reset rowsets t0 = Returned OK t)
  <-> initted_ t0 = false
      /\ Forall (fun rs => bounds_failed rs = false) rowsets.
Proof.
  split.
  - intros (t & R). apply Reset_success in R. tauto.
  - intros (I & A). now apply Reset_succeeds.
Qed.

(** X2: a successful [Reset] overwrites every member: the object it leaves
    holds a copy of the whole input as [all_rowsets_], is initialized, has a
    tree built over exactly its entries, and is the same whatever
    uninitialized object the call started from. *)
Theorem Reset_result_depends_on_input_only (rowsets : list RowSet)
        (t0 t0' t : RowSetTree RowSet) :
  Reset rowsets t0 = Returned OK t ->
  initted_ t0' = false ->
  all_rowsets_ t = rowsets
  /\ initted_ t = true
  /\ tree_ t = Some (IntervalTree.Build (entries_ t))
  /\ Reset rowsets t0' = Returned OK t.
Proof.
  intros R I'.
  pose proof (Reset_success _ _ _ R) as (_ & A & _ & _ & Tt & _ & At & It).
  repeat split; try assumption.
  destruct (Reset_succeeds rowsets t0' I' A) as (t' & R').
  rewrite R'. f_equal.
  rewrite (Reset_success_eq _ _ _ R), (Reset_success_eq _ _ _ R').
  reflexivity.
Qed.

(** X3: whatever [Reset] returns, either the status is OK, or the object
    is exactly as before the call and the status is that of an input rowset
    whose [GetBounds] failed; it is never NotSupported. *)
Theorem Reset_changes_only_on_OK (rowsets : list RowSet)
        (t t' : RowSetTree RowSet) (s : Status) :
  Reset rowsets t = Returned s t' ->
  (s = OK /\ initted_ t' = true)
  \/ (t' = t /\ initted_ t' = false
      /\ ok s = false /\ IsNotSupported s = false
      /\ exists rs, In rs rowsets /\ bounds_status rs = s).
Proof.
  unfold Reset. destruct (initted_ t) eqn:I; [discriminate|].
  destruct (Reset_loop rowsets no_locals) as [s'|l] eqn:R.
  - intros [= -> ->]. right.
    apply Reset_loop_inl in R as (pre & rs & post & -> & _ & Fr & ->).
    repeat split; try assumption.
    + pose proof (bounds_failed_not_OK rs Fr).
      destruct (bounds_status rs); simpl; congruence.
    + now apply bounds_failed_not_NotSupported.
    + exists rs. split; [|reflexivity]. apply in_app_iff. right. now left.
  - intros [= <- <-]. left. auto.
Qed.

(** X4: the first failing rowset decides: when the rowsets before it do not
    fail, [Reset] returns its status and leaves the object alone, whatever
    follows it in the input, failing or not. *)
Theorem Reset_stops_at_first_failure (pre post : list RowSet) (rs : RowSet)
        (t : RowSetTree RowSet) :
  initted_ t = false ->
  Forall (fun r => bounds_failed r = false) pre ->
  bounds_failed rs = true ->
  Reset (pre ++ rs :: post) t = Returned (bounds_status rs) t.
Proof.
  intros I A Fr. unfold Reset. rewrite I.
  enough (forall l, Reset_loop (pre ++ rs :: post) l = inl (bounds_status rs))
    as -> by reflexivity.
  induction A as [|r pre Fa A IH]; intros l; cbn [app];
    rewrite Reset_loop_cons.
  - rewrite Fr. unfold is_unbounded.
    now rewrite (bounds_failed_not_NotSupported rs Fr).
  - rewrite Fa. destruct (is_unbounded r); apply IH.
Qed.

(** X5: the index is written once.  After a [Reset] that returned OK,
    every further [Reset] ends in the fatal check and leaves the object as
    it is; after a [Reset] that returned a failure, a [Reset] with an input
    in which no rowset fails returns OK. *)
Theorem Reset_then_Reset (rowsets rowsets' : list RowSet)
        (t t' : RowSetTree RowSet) (s : Status) :
  Reset rowsets t = Returned s t' ->
  (s = OK -> Reset rowsets' t' = CheckFailed t')
  /\ (s <> OK ->
      Forall (fun rs => bounds_failed rs = false) rowsets' ->
      exists t'', Reset rowsets' t' = Returned OK t'').
Proof.
  intros R. split.
  - intros ->. apply Reset_success in R as (_ & _ & _ & _ & _ & _ & _ & It).
    unfold Reset. now rewrite It.
  - intros N A. apply Reset_succeeds; [|assumption].
    unfold Reset in R. destruct (initted_ t) eqn:I; [discriminate|].
    destruct (Reset_loop rowsets no_locals); injection R as <- <-; congruence.
Qed.

End MoreResetFacts.

(** ** Invariants of the index *)

Section Invariants.
Context {RowSet : Type} `{RowSetInterface RowSet}.

(** X6: an object that a program can hold is either the uninitialized,
    empty object of the constructor, or the result of one successful
    [Reset] on it; no sequence of calls leaves anything in between. *)
Theorem reachable_new_or_built (t : RowSetTree RowSet) :
  reachable t ->
  (initted_ t = false /\ t = RowSetTree_new)
  \/ (initted_ t = true
      /\ exists rowsets, Reset rowsets RowSetTree_new = Returned OK t).
Proof.
  induction 1 as [|rowsets t s t' Rt IH R]; [now left|].
  unfold Reset in R. destruct (initted_ t) eqn:I; [discriminate|].
  destruct IH as [(_ & ->)|(I' & _)]; [|congruence].
  destruct (Reset_loop rowsets no_locals) as [s'|l] eqn:L.
  - injection R as <- <-. now left.
  - right. injection R as <- <-. split; [reflexivity|].
    exists rowsets. unfold Reset. cbn. now rewrite L.
Qed.

Lemma reachable_cases (t : RowSetTree RowSet) :
  reachable t ->
  (initted_ t = false /\ tree_ t = None)
  \/ (initted_ t = true /\ tree_ t = Some (IntervalTree.Build (entries_ t))).
Proof.
  intros Rt. apply reachable_new_or_built in Rt as [(I & ->)|(I & rs & R)].
  - now left.
  - right. apply Reset_success in R. tauto.
Qed.

(** X7: on an object that a program can hold, the only way a query fails
    is its check of [initted_]: on an initialized object [tree_] is never
    null and both queries return, on an uninitialized one neither does. *)
Theorem queries_return_iff_initted (t : RowSetTree RowSet)
        (key lo hi : Slice) (out : list RowSet) :
  reachable t ->
  (FindRowSetsWithKeyInRange t key out <> None <-> initted_ t = true)
  /\ (FindRowSetsIntersectingInterval t lo hi out <> None
      <-> initted_ t = true).
Proof.
  intros Rt. unfold FindRowSetsWithKeyInRange, FindRowSetsIntersectingInterval.
  destruct (reachable_cases t Rt) as [(I & T)|(I & T)]; rewrite I, T; cbn;
    split; split; congruence.
Qed.

(** X8: nothing is lost at build time: after a successful [Reset] every
    input rowset whose [GetBounds] returned OK with the keys min and max has
    the entry (rowset, min, max), and its START endpoint at min and its STOP
    endpoint at max are in the endpoint sequence. *)
Theorem bounded_rowset_is_captured (rowsets : list RowSet)
        (t0 t : RowSetTree RowSet) (rs : RowSet) (mn mx : Slice) :
  Reset rowsets t0 = Returned OK t ->
  In rs rowsets ->
  GetBounds rs = (OK, mn, mx) ->
  In {| rowset := rs; min_key := mn; max_key := mx |} (entries_ t)
  /\ In (Build_RSEndpoint rs START mn) (key_endpoints_ t)
  /\ In (Build_RSEndpoint rs STOP mx) (key_endpoints_ t).
Proof.
  intros R I G.
  apply Reset_success in R as (_ & _ & Et & _ & _ & Kt & _).
  assert (In {| rowset := rs; min_key := mn; max_key := mx |} (entries_ t))
    as Ie.
  { rewrite Et. apply In_bounded_entries. cbn.
    unfold bounded_entry, is_bounded, bounds_status. rewrite G. cbn. auto. }
  split; [assumption|].
  rewrite Kt.
  split; apply (Permutation_in _ (Permutation_sym (std_sort_perm _ _)));
    apply in_flat_map; eexists; (split; [exact Ie|]); cbn; auto.
Qed.

Lemma sorted_earlier (l : list (RSEndpoint RowSet)) (x y : RSEndpoint RowSet) :
  endpoints_sorted l ->
  In x l -> In y l ->
  Slice.lt (slice_ x) (slice_ y) ->
  exists l1 l2 l3, l = l1 ++ x :: l2 ++ y :: l3.
Proof.
  unfold endpoints_sorted, Slice.lt. cbn.
  induction 1 as [|a l S IH Fa]; intros Ix Iy L; [contradiction|].
  destruct Ix as [->|Ix].
  - destruct Iy as [->|Iy].
    + rewrite Slice_compare_refl in L. lia.
    + apply in_split in Iy as (l2 & l3 & ->). now exists [], l2, l3.
  - destruct Iy as [->|Iy].
    + rewrite Forall_forall in Fa. specialize (Fa x Ix).
      rewrite (Slice_compare_antisym (slice_ x) (slice_ y)) in Fa. lia.
    + destruct (IH Ix Iy L) as (l1 & l2 & l3 & ->).
      now exists (a :: l1), l2, l3.
Qed.

(** X9: in the endpoint sequence of a successful [Reset], the START of an
    entry stands before its STOP whenever its min_key is strictly below its
    max_key.  (For equal keys the sort leaves the order open.) *)
Theorem START_before_STOP (rowsets : list RowSet) (t0 t : RowSetTree RowSet)
        (e : RowSetWithBounds RowSet) :
  Reset rowsets t0 = Returned OK t ->
  In e (entries_ t) ->
  Slice.lt (min_key e) (max_key e) ->
  exists l1 l2 l3,
    key_endpoints_ t =
    l1 ++ Build_RSEndpoint (rowset e) START (min_key e)
       :: l2 ++ Build_RSEndpoint (rowset e) STOP (max_key e) :: l3.
Proof.
  intros R Ie L.
  apply Reset_success in R as (_ & _ & _ & _ & _ & Kt & _).
  rewrite Kt. apply sorted_earlier.
  - apply std_sort_endpoints_sorted.
  - apply (Permutation_in _ (Permutation_sym (std_sort_perm _ _))).
    apply in_flat_map. exists e. cbn. auto.
  - apply (Permutation_in _ (Permutation_sym (std_sort_perm _ _))).
    apply in_flat_map. exists e. cbn. auto.
  - exact L.
Qed.

Lemma Slice_lt_trans (a b c : Slice) :
  Slice.lt a b -> Slice.lt b c -> Slice.lt a c.
Proof.
  unfold Slice.lt. intros L1 L2.
  assert (Slice.compare a c <= 0) as Le
      by (apply (Slice_le_trans a b c); unfold Slice.le; lia).
  destruct (Z.eq_dec (Slice.compare a c) 0) as [E|N]; [|lia].
  apply Slice_compare_eq in E. subst c.
  rewrite (Slice_compare_antisym a b) in L2. lia.
Qed.

(** X10: [RSEndpointBySliceCompare] is an ordering of the kind that
    [std::sort] requires: irreflexive, asymmetric and transitive, with a
    transitive "neither is smaller"; and it looks at the key alone, so that
    two endpoints are unordered exactly when their keys are equal, whatever
    their rowsets and kinds. *)
Theorem RSEndpointBySliceCompare_strict_weak_order :
  (forall a : RSEndpoint RowSet, RSEndpointBySliceCompare a a = false)
  /\ (forall a b : RSEndpoint RowSet,
        RSEndpointBySliceCompare a b = true ->
        RSEndpointBySliceCompare b a = false)
  /\ (forall a b c : RSEndpoint RowSet,
        RSEndpointBySliceCompare a b = true ->
        RSEndpointBySliceCompare b c = true ->
        RSEndpointBySliceCompare a c = true)
  /\ (forall a b : RSEndpoint RowSet,
        RSEndpointBySliceCompare a b = false
        /\ RSEndpointBySliceCompare b a = false
        <-> slice_ a = slice_ b)
  /\ (forall a b c : RSEndpoint RowSet,
        RSEndpointBySliceCompare a b = false
        /\ RSEndpointBySliceCompare b a = false ->
        RSEndpointBySliceCompare b c = false
        /\ RSEndpointBySliceCompare c b = false ->
        RSEndpointBySliceCompare a c = false
        /\ RSEndpointBySliceCompare c a = false).
Proof.
  assert (forall a b : RSEndpoint RowSet,
             RSEndpointBySliceCompare a b = false
             /\ RSEndpointBySliceCompare b a = false
             <-> slice_ a = slice_ b) as Eq.
  { intros a b. unfold RSEndpointBySliceCompare, Slice.Comparator.
    rewrite !Z.ltb_ge. split.
    - intros (L1 & L2). apply Slice_compare_eq.
      rewrite (Slice_compare_antisym (slice_ a) (slice_ b)) in L2. lia.
    - intros ->. rewrite Slice_compare_refl. lia. }
  split; [|split; [|split; [|split]]].
  - intros a. unfold RSEndpointBySliceCompare, Slice.Comparator.
    rewrite Slice_compare_refl. reflexivity.
  - intros a b. apply Comparator_asym.
  - intros a b c. unfold RSEndpointBySliceCompare, Slice.Comparator.
    rewrite !Z.ltb_lt. apply Slice_lt_trans.
  - exact Eq.
  - intros a b c Eab Ebc. apply Eq. apply Eq in Eab, Ebc. congruence.
Qed.

End Invariants.

(** ** What the queries return, for every rowset *)

Section MoreQueryFacts.
Context {RowSet : Type} `{RowSetInterface RowSet}.

Ltac by_branch rs :=
  destruct (branch_cases rs) as [(U & F & B)|[(U & F & B)|(U & F & B & S)]].

(** A rowset has bounds that pass a test exactly when [GetBounds] returns
    OK for it with keys that pass. *)
Lemma bounded_with (rs : RowSet) (f : RowSetWithBounds RowSet -> bool) :
  is_bounded rs = true /\ f (bounded_entry rs) = true
  <-> exists mn mx,
      GetBounds rs = (OK, mn, mx)
      /\ f {| rowset := rs; min_key := mn; max_key := mx |} = true.
Proof.
  split.
  - intros (Bd & Fe). eexists _, _. split; [|exact Fe].
    now apply bounded_entry_bounds.
  - intros (mn & mx & G & Fe).
    unfold is_bounded, bounded_entry, bounds_status. rewrite G. cbn. auto.
Qed.

(** What both queries append, rowset by rowset. *)
Lemma In_appended (rowsets : list RowSet) (t0 t : RowSetTree RowSet)
      (f : RowSetWithBounds RowSet -> bool) (s : RowSet) :
  Reset rowsets t0 = Returned OK t ->
  In s (unbounded_rowsets_ t ++ map rowset (filter f (entries_ t)))
  <-> In s rowsets
      /\ (is_unbounded s = true
          \/ exists mn mx,
             GetBounds s = (OK, mn, mx)
             /\ f {| rowset := s; min_key := mn; max_key := mx |} = true).
Proof.
  intros R. apply Reset_success in R as (_ & _ & Et & Ut & _).
  rewrite Et, Ut, in_app_iff, filter_In, in_map_iff, <- bounded_with.
  split.
  - intros [(I & Us)|(e & <- & Ie)]; [tauto|].
    apply filter_In in Ie as (Ie & Fe).
    apply In_bounded_entries in Ie as (Ee & Ie & Be).
    rewrite <- Ee. tauto.
  - intros (I & [Us|(Bs & Fs)]); [tauto|].
    right. exists (bounded_entry s). split; [reflexivity|].
    apply filter_In. split; [|assumption].
    apply In_bounded_entries. cbn. auto.
Qed.

(** X11: the exact answer of the point query.  On a built index, a rowset
    is among those that [FindRowSetsWithKeyInRange] appends if and only if
    it is in the input of [Reset] and either its [GetBounds] said
    NotSupported, or it returned OK with min <= key <= max.  So a rowset
    that was not in the input is never returned. *)
Theorem FindRowSetsWithKeyInRange_exact (rowsets : list RowSet)
        (t0 t : RowSetTree RowSet) (key : Slice) (out : list RowSet) :
  Reset rowsets t0 = Returned OK t ->
  exists res,
    FindRowSetsWithKeyInRange t key out = Some (out ++ res)
    /\ forall s,
        In s res <->
        In s rowsets
        /\ (IsNotSupported (bounds_status s) = true
            \/ exists mn mx,
               GetBounds s = (OK, mn, mx)
               /\ Slice.le mn key /\ Slice.le key mx).
Proof.
  intros R. eexists.
  split; [now apply (FindRowSetsWithKeyInRange_built rowsets t0)|].
  intros s. rewrite (In_appended rowsets t0 t _ s R).
  apply and_iff_compat_l, or_iff_compat_l.
  split; intros (mn & mx & G & C); exists mn, mx; (split; [exact G|]).
  - exact (proj1 (contains_point_iff key _) C).
  - exact (proj2 (contains_point_iff key
                    {| rowset := s; min_key := mn; max_key := mx |}) C).
Qed.


Lemma appended_length (rowsets : list RowSet) (t0 t : RowSetTree RowSet)
      (f : RowSetWithBounds RowSet -> bool) :
  Reset rowsets t0 = Returned OK t ->
  (List.length (unbounded_rowsets_ t ++ map rowset (filter f (entries_ t)))
   <= List.length (all_rowsets_ t))%nat.
Proof.
  intros R. apply Reset_success in R as (_ & A & Et & Ut & _ & _ & At & _).
  rewrite At, length_app, length_map.
  pose proof (filter_length_le f (entries_ t)) as Lf.
  pose proof (Permutation_length (partition_perm rowsets A)) as Lp.
  rewrite length_app in Lp.
  assert (List.length (entries_ t)
          = List.length (filter is_bounded rowsets)) as Le
      by now rewrite Et, length_map.
  rewrite Ut. lia.
Qed.

(** X13: neither query appends more rowsets than the index holds in
    [all_rowsets_], the size for which both reserve their scratch vector. *)
Theorem queries_append_at_most_all (rowsets : list RowSet)
        (t0 t : RowSetTree RowSet) (key lo hi : Slice) (out : list RowSet) :
  Reset rowsets t0 = Returned OK t ->
  (exists res,
      FindRowSetsWithKeyInRange t key out = Some (out ++ res)
      /\ (List.length res <= List.length (all_rowsets_ t))%nat)
  /\ (exists res,
        FindRowSetsIntersectingInterval t lo hi out = Some (out ++ res)
        /\ (List.length res <= List.length (all_rowsets_ t))%nat).
Proof.
  intros R. split; eexists; split.
  - now apply (FindRowSetsWithKeyInRange_built rowsets t0).
  - now apply (appended_length rowsets t0).
  - now apply (FindRowSetsIntersectingInterval_built rowsets t0).
  - now apply (appended_length rowsets t0).
Qed.

Lemma appended_NoDup (rowsets : list RowSet) (t0 t : RowSetTree RowSet)
      (f : RowSetWithBounds RowSet -> bool) :
  Reset rowsets t0 = Returned OK t ->
  NoDup rowsets ->
  NoDup (unbounded_rowsets_ t ++ map rowset (filter f (entries_ t))).
Proof.
  intros R N. apply Reset_success in R as (_ & _ & Et & Ut & _).
  rewrite Et, Ut, filter_map_swap, rowset_bounded_entries.
  apply NoDup_app.
  - now apply NoDup_filter.
  - now apply NoDup_filter, NoDup_filter.
  - intros a Ia Ib. apply filter_In in Ia as (_ & Ua).
    apply filter_In in Ib as (Ib & _). apply filter_In in Ib as (_ & Ba).
    by_branch a; congruence.
Qed.

(** X14: the queries add no duplicates of their own: when the rowsets
    given to [Reset] are pairwise distinct, so are the rowsets that either
    query appends. *)
Theorem queries_keep_distinct (rowsets : list RowSet)
        (t0 t : RowSetTree RowSet) (key lo hi : Slice) (out : list RowSet) :
  Reset rowsets t0 = Returned OK t ->
  NoDup rowsets ->
  (exists res,
      FindRowSetsWithKeyInRange t key out = Some (out ++ res) /\ NoDup res)
  /\ (exists res,
        FindRowSetsIntersectingInterval t lo hi out = Some (out ++ res)
        /\ NoDup res).
Proof.
  intros R N. split; eexists; split.
  - now apply (FindRowSetsWithKeyInRange_built rowsets t0).
  - now apply (appended_NoDup rowsets t0).
  - now apply (FindRowSetsIntersectingInterval_built rowsets t0).
  - now apply (appended_NoDup rowsets t0).
Qed.

Lemma filter_all {A : Type} (p : A -> bool) (l : list A) :
  Forall (fun x => p x = true) l -> filter p l = l.
Proof.
  induction 1 as [|x l P _ IH]; cbn; [reflexivity|]. now rewrite P, IH.
Qed.

Lemma filter_none {A : Type} (p : A -> bool) (l : list A) :
  Forall (fun x => p x = false) l -> filter p l = [].
Proof.
  induction 1 as [|x l P _ IH]; cbn; [reflexivity|]. now rewrite P.
Qed.

(** X15: when no rowset of the input has bounds (in particular when the
    input is empty), [Reset] on an uninitialized object succeeds with no
    entries and no endpoints, and both queries append the whole input, in
    its order, for every key and range. *)
Theorem all_unbounded_all_returned (rowsets : list RowSet)
        (t0 : RowSetTree RowSet) :
  initted_ t0 = false ->
  Forall (fun rs => IsNotSupported (bounds_status rs) = true) rowsets ->
  exists t,
    Reset rowsets t0 = Returned OK t
    /\ entries_ t = []
    /\ key_endpoints_ t = []
    /\ (forall key out,
          FindRowSetsWithKeyInRange t key out = Some (out ++ rowsets))
    /\ (forall lo hi out,
          FindRowSetsIntersectingInterval t lo hi out
          = Some (out ++ rowsets)).
Proof.
  intros I A.
  assert (Forall (fun rs => bounds_failed rs = false) rowsets) as NF.
  { eapply Forall_impl; [|exact A]. cbn. intros rs N.
    by_branch rs; unfold is_unbounded in U; congruence. }
  assert (Forall (fun rs => is_bounded rs = false) rowsets) as NB.
  { eapply Forall_impl; [|exact A]. cbn. intros rs N.
    by_branch rs; unfold is_unbounded in U; congruence. }
  destruct (Reset_succeeds rowsets t0 I NF) as (t & R).
  exists t. split; [assumption|].
  pose proof (Reset_success _ _ _ R) as (_ & _ & Et & Ut & _ & Kt & _).
  rewrite (filter_none _ _ NB) in Et. cbn in Et.
  rewrite (filter_all is_unbounded _ A) in Ut.
  rewrite Et in Kt. cbn in Kt.
  repeat split; try assumption; intros.
  - rewrite (FindRowSetsWithKeyInRange_built rowsets t0 t _ _ R), Et, Ut.
    cbn. now rewrite app_nil_r.
  - rewrite (FindRowSetsIntersectingInterval_built rowsets t0 t _ _ _ R),
      Et, Ut.
    cbn. now rewrite app_nil_r.
Qed.

End MoreQueryFacts.

(** ** How the two queries relate *)

Section QueryOrder.
Context {RowSet : Type} `{RowSetInterface RowSet}.

Lemma appended_incl (t : RowSetTree RowSet)
      (f g : RowSetWithBounds RowSet -> bool) :
  (forall e, f e = true -> g e = true) ->
  incl (unbounded_rowsets_ t ++ map rowset (filter f (entries_ t)))
       (unbounded_rowsets_ t ++ map rowset (filter g (entries_ t))).
Proof.
  intros W s. rewrite !in_app_iff, !in_map_iff.
  intros [Iu|(e & <- & Ie)]; [now left|]. right. exists e.
  split; [reflexivity|]. apply filter_In in Ie as (Ie & Fe).
  apply filter_In. auto.
Qed.

(** X16: a range query finds at least what a point query inside the range
    finds: on a built index, for lower_bound <= key <= upper_bound, every
    rowset that [FindRowSetsWithKeyInRange] appends for the key is also
    appended by [FindRowSetsIntersectingInterval] for the range. *)
Theorem point_result_within_range_result (rowsets : list RowSet)
        (t0 t : RowSetTree RowSet) (key lo hi : Slice) (out : list RowSet) :
  Reset rowsets t0 = Returned OK t ->
  Slice.le lo key -> Slice.le key hi ->
  exists at_key in_range,
    FindRowSetsWithKeyInRange t key out = Some (out ++ at_key)
    /\ FindRowSetsIntersectingInterval t lo hi out = Some (out ++ in_range)
    /\ incl at_key in_range.
Proof.
  intros R L1 L2. eexists _, _. split; [|split].
  - now apply (FindRowSetsWithKeyInRange_built rowsets t0).
  - now apply (FindRowSetsIntersectingInterval_built rowsets t0).
  - apply appended_incl. intros e C.
    apply contains_point_iff in C as (C1 & C2). apply intersects_iff.
    split.
    + now apply (Slice_le_trans _ key).
    + now apply (Slice_le_trans _ key).
Qed.


End QueryOrder.

(** ** The further properties at the sample rowsets *)

Lemma Reset_OK_iff_witness :
  exists t, Reset [rsA; rsC; rsF] RowSetTree_new = Returned OK t.
Proof.
  apply (proj2 (Reset_OK_iff [rsA; rsC; rsF] RowSetTree_new)).
  split; [reflexivity|]. repeat constructor.
Defined.

Lemma Reset_result_depends_on_input_only_witness :
  all_rowsets_ sample_tree = [rsA; rsB; rsC]
  /\ initted_ sample_tree = true
  /\ tree_ sample_tree = Some (IntervalTree.Build (entries_ sample_tree))
  /\ Reset [rsA; rsB; rsC]
       {| entries_ := []; unbounded_rowsets_ := [rsF]; tree_ := None;
          key_endpoints_ := []; all_rowsets_ := [rsF; rsX];
          initted_ := false |}
     = Returned OK sample_tree.
Proof.
  apply (Reset_result_depends_on_input_only
           [rsA; rsB; rsC] RowSetTree_new).
  - reflexivity.
  - reflexivity.
Defined.

Lemma Reset_changes_only_on_OK_witness :
  (OtherError 5 "bounds unreadable" = OK
   /\ initted_ (RowSetTree_new : RowSetTree SampleRowSet) = true)
  \/ ((RowSetTree_new : RowSetTree SampleRowSet) = RowSetTree_new
      /\ initted_ (RowSetTree_new : RowSetTree SampleRowSet) = false
      /\ ok (OtherError 5 "bounds unreadable") = false
      /\ IsNotSupported (OtherError 5 "bounds unreadable") = false
      /\ exists rs,
          In rs [rsC; rsX; rsA]
          /\ bounds_status rs = OtherError 5 "bounds unreadable").
Proof.
  apply (Reset_changes_only_on_OK [rsC; rsX; rsA] RowSetTree_new).
  reflexivity.
Defined.

Lemma Reset_stops_at_first_failure_witness :
  Reset ([rsA; rsC] ++ rsX :: [rsB; BrokenRowSet "Y" 7]) RowSetTree_new
  = Returned (bounds_status rsX) RowSetTree_new.
Proof.
  apply (Reset_stops_at_first_failure
           [rsA; rsC] [rsB; BrokenRowSet "Y" 7] rsX RowSetTree_new).
  - reflexivity.
  - repeat constructor.
  - reflexivity.
Defined.

Lemma Reset_then_Reset_witness :
  (OK = OK -> Reset [rsF] sample_tree = CheckFailed sample_tree)
  /\ (OK <> OK ->
      Forall (fun rs => bounds_failed rs = false) [rsF] ->
      exists t'', Reset [rsF] sample_tree = Returned OK t'').
Proof.
  apply (Reset_then_Reset [rsA; rsB; rsC] [rsF] RowSetTree_new).
  reflexivity.
Defined.

Lemma reachable_new_or_built_witness :
  (initted_ sample_tree = false /\ sample_tree = RowSetTree_new)
  \/ (initted_ sample_tree = true
      /\ exists rowsets,
          Reset rowsets RowSetTree_new = Returned OK sample_tree).
Proof.
  apply (reachable_new_or_built sample_tree).
  apply (reachable_Reset [rsA; rsB; rsC] RowSetTree_new OK sample_tree).
  - apply reachable_new.
  - reflexivity.
Defined.

Lemma queries_return_iff_initted_witness :
  (FindRowSetsWithKeyInRange sample_tree (Slice.of_string "b") [] <> None
   <-> initted_ sample_tree = true)
  /\ (FindRowSetsIntersectingInterval sample_tree
        (Slice.of_string "a") (Slice.of_string "b") [] <> None
      <-> initted_ sample_tree = true).
Proof.
  apply (queries_return_iff_initted sample_tree).
  apply (reachable_Reset [rsA; rsB; rsC] RowSetTree_new OK sample_tree).
  - apply reachable_new.
  - reflexivity.
Defined.

Lemma bounded_rowset_is_captured_witness :
  In {| rowset := rsB; min_key := Slice.of_string "b";
        max_key := Slice.of_string "d" |} (entries_ sample_tree)
  /\ In (Build_RSEndpoint rsB START (Slice.of_string "b"))
        (key_endpoints_ sample_tree)
  /\ In (Build_RSEndpoint rsB STOP (Slice.of_string "d"))
        (key_endpoints_ sample_tree).
Proof.
  apply (bounded_rowset_is_captured [rsA; rsB; rsC] RowSetTree_new).
  - reflexivity.
  - simpl. right. left. reflexivity.
  - reflexivity.
Defined.

Lemma START_before_STOP_witness :
  exists l1 l2 l3,
    key_endpoints_ sample_tree =
    l1 ++ Build_RSEndpoint rsA START (Slice.of_string "a")
       :: l2 ++ Build_RSEndpoint rsA STOP (Slice.of_string "c") :: l3.
Proof.
  refine (START_before_STOP [rsA; rsB; rsC] RowSetTree_new sample_tree
            (bounded_entry rsA) _ _ _).
  - reflexivity.
  - simpl. left. reflexivity.
  - unfold Slice.lt. simpl. lia.
Defined.

Lemma RSEndpointBySliceCompare_strict_weak_order_witness :
  RSEndpointBySliceCompare
    (Build_RSEndpoint rsB STOP (Slice.of_string "d"))
    (Build_RSEndpoint rsA START (Slice.of_string "a")) = false.
Proof.
  apply (proj1 (proj2 RSEndpointBySliceCompare_strict_weak_order)).
  reflexivity.
Defined.

Lemma FindRowSetsWithKeyInRange_exact_witness :
  exists res,
    FindRowSetsWithKeyInRange sample_tree (Slice.of_string "d") [rsF]
    = Some ([rsF] ++ res)
    /\ forall s,
        In s res <->
        In s [rsA; rsB; rsC]
        /\ (IsNotSupported (bounds_status s) = true
            \/ exists mn mx,
               GetBounds s = (OK, mn, mx)
               /\ Slice.le mn (Slice.of_string "d")
               /\ Slice.le (Slice.of_string "d") mx).
Proof.
  apply (FindRowSetsWithKeyInRange_exact [rsA; rsB; rsC] RowSetTree_new).
  reflexivity.
Defined.


Lemma queries_append_at_most_all_witness :
  (exists res,
      FindRowSetsWithKeyInRange sample_tree (Slice.of_string "b") [rsF]
      = Some ([rsF] ++ res)
      /\ (List.length res <= List.length (all_rowsets_ sample_tree))%nat)
  /\ (exists res,
        FindRowSetsIntersectingInterval sample_tree
          (Slice.of_string "a") (Slice.of_string "z") [rsF]
        = Some ([rsF] ++ res)
        /\ (List.length res <= List.length (all_rowsets_ sample_tree))%nat).
Proof.
  apply (queries_append_at_most_all [rsA; rsB; rsC] RowSetTree_new).
  reflexivity.
Defined.

Lemma queries_keep_distinct_witness :
  (exists res,
      FindRowSetsWithKeyInRange sample_tree (Slice.of_string "b") []
      = Some ([] ++ res) /\ NoDup res)
  /\ (exists res,
        FindRowSetsIntersectingInterval sample_tree
          (Slice.of_string "a") (Slice.of_string "z") []
        = Some ([] ++ res)
        /\ NoDup res).
Proof.
  apply (queries_keep_distinct [rsA; rsB; rsC] RowSetTree_new).
  - reflexivity.
  - repeat constructor; simpl; intuition discriminate.
Defined.

Lemma all_unbounded_all_returned_witness :
  exists t,
    Reset [rsC; MemRowSet "D"] RowSetTree_new = Returned OK t
    /\ entries_ t = []
    /\ key_endpoints_ t = []
    /\ (forall key out,
          FindRowSetsWithKeyInRange t key out
          = Some (out ++ [rsC; MemRowSet "D"]))
    /\ (forall lo hi out,
          FindRowSetsIntersectingInterval t lo hi out
          = Some (out ++ [rsC; MemRowSet "D"])).
Proof.
  apply (all_unbounded_all_returned [rsC; MemRowSet "D"] RowSetTree_new).
  - reflexivity.
  - repeat constructor.
Defined.

Lemma point_result_within_range_result_witness :
  exists at_key in_range,
    FindRowSetsWithKeyInRange sample_tree (Slice.of_string "c") []
    = Some ([] ++ at_key)
    /\ FindRowSetsIntersectingInterval sample_tree
         (Slice.of_string "a") (Slice.of_string "e") []
       = Some ([] ++ in_range)
    /\ incl at_key in_range.
Proof.
  apply (point_result_within_range_result [rsA; rsB; rsC] RowSetTree_new).
  - reflexivity.
  - unfold Slice.le. simpl. lia.
  - unfold Slice.le. simpl. lia.
Defined.

